(** * Verification of the Sudoku rule engine (storopoli/sudoku)

    Shallow embedding of [src/utils.rs] (related cells, conflicts, changed
    cell) and of the event handlers of [src/components/board.rs]
    (number buttons, undo, hint, new game), with the session state that the
    Dioxus signals hold. *)

From Stdlib Require Import Strings.String Ascii List Arith Lia Bool Sorting.Sorted.
Import ListNotations.

(** ** Grid *)

(** [SudokuState = [u8; 81]]: a list of 81 cell values, row by row.
    Every theorem below assumes length 81, which the array type guarantees. *)
Definition SudokuState := list nat.

(** [board[i]] for an index known to be in range. *)
Definition cell (b : SudokuState) (i : nat) : nat := nth i b 0.

(** [board[i] = v] on a copy of the array (in range). *)
Fixpoint set_nth (b : SudokuState) (i v : nat) : SudokuState :=
  match b, i with
  | [], _ => []
  | _ :: t, 0 => v :: t
  | x :: t, S i' => x :: set_nth t i' v
  end.

(** ** Vec helpers: [sort_unstable], [dedup], [retain] *)

Fixpoint insert_sorted (x : nat) (l : list nat) : list nat :=
  match l with
  | [] => [x]
  | y :: t => if x <=? y then x :: y :: t else y :: insert_sorted x t
  end.

(** [sort_unstable] on [u8]: the result is the unique ascending permutation,
    so any sorting algorithm embeds it. *)
Fixpoint sort_unstable (l : list nat) : list nat :=
  match l with
  | [] => []
  | x :: t => insert_sorted x (sort_unstable t)
  end.

(** [Vec::dedup]: removes consecutive repeated elements. *)
Fixpoint dedup_from (prev : nat) (l : list nat) : list nat :=
  match l with
  | [] => []
  | x :: t => if x =? prev then dedup_from prev t else x :: dedup_from x t
  end.

Definition dedup (l : list nat) : list nat :=
  match l with
  | [] => []
  | x :: t => x :: dedup_from x t
  end.

(** [Vec::retain]. *)
Definition retain (p : nat -> bool) (l : list nat) : list nat := filter p l.

(** ** [get_related_cells] *)

Definition get_related_cells (index : nat) : list nat :=
  let row := index / 9 in
  let col := index mod 9 in
  let start_row := row / 3 * 3 in
  let start_col := col / 3 * 3 in
  (* same row *)
  let rc := map (fun i => row * 9 + i) (seq 0 9) in
  (* same column *)
  let cc := map (fun i => i * 9 + col) (seq 0 9) in
  (* same 3x3 sub-grid *)
  let bc := flat_map (fun i => map (fun j => i * 9 + j) (seq start_col 3))
                     (seq start_row 3) in
  let related_cells := sort_unstable (rc ++ cc ++ bc) in
  let related_cells := dedup related_cells in
  retain (fun x => negb (x =? index)) related_cells.

Arguments get_related_cells : simpl never.

(** ** [get_conflicting_cells] *)

Definition get_conflicting_cells (board : SudokuState) (index : nat) : list nat :=
  let value := cell board index in
  if value =? 0 then []
  else filter (fun j => cell board j =? value) (get_related_cells index).

(** ** [find_changed_cell]: first index where the zipped arrays differ. *)

Fixpoint find_changed_from (k : nat) (p c : SudokuState) : option nat :=
  match p, c with
  | x :: p', y :: c' => if x =? y then find_changed_from (S k) p' c' else Some k
  | _, _ => None
  end.

Definition find_changed_cell (previous current : SudokuState) : option nat :=
  find_changed_from 0 previous current.

(** ** [get_all_conflicting_cells] *)

Definition filled_cells (b : SudokuState) : list nat :=
  filter (fun idx => negb (cell b idx =? 0)) (seq 0 (length b)).

Definition get_all_conflicting_cells (current_sudoku : SudokuState) : list nat :=
  let filled := filled_cells current_sudoku in
  let conflicting := flat_map (get_conflicting_cells current_sudoku) filled in
  dedup (sort_unstable conflicting).

Arguments get_all_conflicting_cells : simpl never.

(** ** Session state: the Dioxus signals shared by the board components *)

Record session := mk_session {
  initial_sudoku : SudokuState;   (* InitialSudokuPuzzle *)
  moves : list SudokuState;       (* SudokuPuzzleMoves *)
  sudoku : SudokuState;           (* SudokuPuzzle *)
  clicked : nat;                  (* Clicked *)
  mutable : bool;                 (* Mutable *)
  related : list nat;             (* Related *)
  conflicting : list nat          (* Conflicting *)
}.

(** Sentinel stored in [Clicked] when no cell is selected. *)
Definition no_selection : nat := 90.

Definition set_conflicting (s : session) (c : list nat) : session :=
  mk_session (initial_sudoku s) (moves s) (sudoku s) (clicked s) (mutable s)
             (related s) c.

(** [Vec::last]. *)
Fixpoint last_opt {A} (l : list A) : option A :=
  match l with
  | [] => None
  | [x] => Some x
  | _ :: t => last_opt t
  end.

(** [Vec::pop]: the remaining vector and the popped element. *)
Definition vec_pop {A} (l : list A) : option (list A * A) :=
  match last_opt l with
  | None => None
  | Some x => Some (removelast l, x)
  end.

Definition grid_eq_dec := list_eq_dec Nat.eq_dec.

(** Initial state: [App] provides the puzzle, the current grid and the
    moves; [SudokuBoard] provides [Clicked(90)], [Mutable(false)] and the
    empty [Related] and [Conflicting] lists. *)
Definition app_init (p : SudokuState) : session :=
  mk_session p [p] p no_selection false [] [].

(** Writing a grid into [SudokuPuzzle] and pushing it on the moves
    ([NumberButton], lines 126-128). *)
Definition commit (s : session) (g : SudokuState) : session :=
  mk_session (initial_sudoku s) (moves s ++ [g]) g (clicked s) (mutable s)
             (related s) (conflicting s).

(** [NumberButton] onclick. [None] is a panic: [sudoku.read().0[clicked]]
    indexes the 81-cell array with the stored [Clicked] value. *)
Definition number_button (number : nat) (s : session) : option session :=
  match nth_error (sudoku s) (clicked s) with
  | None => None
  | Some v =>
      if v =? number then Some s
      else if mutable s then
        let current_sudoku := set_nth (sudoku s) (clicked s) number in
        let s1 := commit s current_sudoku in
        Some (set_conflicting s1 (get_all_conflicting_cells current_sudoku))
      else Some s
  end.

(** [UndoButton] onclick. [current_sudoku] is the last move read when the
    component renders; every [expect] that fails is [None]. *)
Definition undo_button (s : session) : option session :=
  match last_opt (moves s) with
  | None => None
  | Some current_sudoku =>
      if grid_eq_dec current_sudoku (initial_sudoku s) then
        Some (set_conflicting s (conflicting s))
      else
        match vec_pop (moves s) with
        | None => None
        | Some (moves', last_state) =>
            match last_opt moves' with
            | None => None
            | Some new_sudoku =>
                match find_changed_cell last_state new_sudoku with
                | None => None
                | Some last_clicked =>
                    Some (mk_session (initial_sudoku s) moves' new_sudoku
                            last_clicked (mutable s)
                            (get_related_cells last_clicked)
                            (get_all_conflicting_cells new_sudoku))
                end
            end
        end
  end.

(** [NewButton] onclick; [p] is the grid returned by [create_sudoku]. *)
Definition new_button (p : SudokuState) (s : session) : session :=
  mk_session p [p] p no_selection true [] [].

(** Modelled from the spec: the click handler of [Cell] (the component
    imported from [components::cell] is not in the sources). [selectCell]
    records the selected index, whether that cell is free in the initial
    puzzle, and its related cells; it does not touch the grid. *)
Definition select_cell (index : nat) (s : session) : session :=
  mk_session (initial_sudoku s) (moves s) (sudoku s) index
             (cell (initial_sudoku s) index =? 0) (get_related_cells index)
             (conflicting s).

Section Hint.

(** The solving collaborator: a full solution, or [None] when unsolvable. *)
Variable solve : SudokuState -> option SudokuState.

(** Modelled from the spec: [remove_conflicting_cells] (utils, not in the
    sources) resets every listed cell to 0. *)
Fixpoint remove_conflicting_cells (b : SudokuState) (cells : list nat)
  : SudokuState :=
  match cells with
  | [] => b
  | c :: t => remove_conflicting_cells (set_nth b c 0) t
  end.

Fixpoint first_zero_from (k : nat) (b : SudokuState) : option nat :=
  match b with
  | [] => None
  | x :: t => if x =? 0 then Some k else first_zero_from (S k) t
  end.

(** Modelled from the spec: [get_hint] (utils, not in the sources).
    Step 1 resets the conflicting cells, step 2 fills the lowest empty
    cell with the solution's value, step 3 is a no-op on a complete grid;
    an unsolvable grid is an error ([None]). *)
Definition get_hint (b : SudokuState) : option SudokuState :=
  let b1 := remove_conflicting_cells b (get_all_conflicting_cells b) in
  match first_zero_from 0 b1 with
  | None => Some b1
  | Some i =>
      match solve b1 with
      | None => None
      | Some sol => Some (set_nth b1 i (cell sol i))
      end
  end.

(** [HintButton] onclick, first part: when the [Conflicting] signal is not
    empty, the conflicting cells of [current_sudoku] are reset to 0 and the
    result is pushed on the moves and written into [SudokuPuzzle]. *)
Definition hint_cleanup (s : session) (current_sudoku : SudokuState) : session :=
  match conflicting s with
  | [] => s
  | _ :: _ =>
      let conficting_cells := get_all_conflicting_cells current_sudoku in
      let cur := remove_conflicting_cells current_sudoku conficting_cells in
      mk_session (initial_sudoku s) (moves s ++ [cur]) cur (clicked s)
                 (mutable s) (related s) []
  end.

(** [get_hint(..).unwrap_or_else(..)]: on an error, retry once after
    removing the conflicts ([None] is the failing [expect]). *)
Definition hint_value (b : SudokuState) : option SudokuState :=
  match get_hint b with
  | Some g => Some g
  | None => get_hint (remove_conflicting_cells b (get_all_conflicting_cells b))
  end.

(** [HintButton] onclick, second part: when the grid still has an empty
    cell, write the hinted grid, push it, and select the changed cell. *)
Definition hint_fill (s1 : session) : option session :=
  match hint_value (sudoku s1) with
  | None => None
  | Some new_sudoku =>
      if existsb (fun v => v =? 0) (sudoku s1) then
        match find_changed_cell (sudoku s1) new_sudoku with
        | None => None
        | Some last_clicked =>
            Some (mk_session (initial_sudoku s1) (moves s1 ++ [new_sudoku])
                    new_sudoku last_clicked (mutable s1)
                    (get_related_cells last_clicked)
                    (get_all_conflicting_cells new_sudoku))
        end
      else Some s1
  end.

(** [HintButton] onclick; [current_sudoku] is the last move read when the
    component renders. *)
Definition hint_button (s : session) : option session :=
  match last_opt (moves s) with
  | None => None
  | Some current_sudoku => hint_fill (hint_cleanup s current_sudoku)
  end.

(** One user intent: select a cell, press one of the buttons 0..9, undo,
    hint, or start a new game with a generated 81-cell puzzle. *)
Inductive step : session -> session -> Prop :=
| step_select s i : i < 81 -> step s (select_cell i s)
| step_number s n s' : n <= 9 -> number_button n s = Some s' -> step s s'
| step_undo s s' : undo_button s = Some s' -> step s s'
| step_hint s s' : hint_button s = Some s' -> step s s'
| step_new s p : length p = 81 -> step s (new_button p s).

Inductive reachable : session -> Prop :=
| reach_init p : length p = 81 -> reachable (app_init p)
| reach_step s s' : reachable s -> step s s' -> reachable s'.

End Hint.

(** ** Peers of a cell, as a decidable relation *)

Definition same_box (i j : nat) : bool :=
  (i / 9 / 3 =? j / 9 / 3) && (i mod 9 / 3 =? j mod 9 / 3).

Definition peer (i j : nat) : bool :=
  (j <? 81) && negb (j =? i) &&
  ((i / 9 =? j / 9) || (i mod 9 =? j mod 9) || same_box i j).

Definition mem (x : nat) (l : list nat) : bool := existsb (Nat.eqb x) l.

(** Checked on every index by evaluation. *)
Definition related_ok (i : nat) : bool :=
  (length (get_related_cells i) =? 20) &&
  forallb (fun j => Bool.eqb (mem j (get_related_cells i)) (peer i j)) (seq 0 81) &&
  forallb (fun x => x <? 81) (get_related_cells i).

(** ** Running a sequence of user intents *)

Inductive intent :=
| ISelect (i : nat)
| INumber (n : nat)
| IUndo
| IHint
| INew (p : SudokuState).

Definition run_intent (solve : SudokuState -> option SudokuState) (a : intent)
  (s : session) : option session :=
  match a with
  | ISelect i => if i <? 81 then Some (select_cell i s) else None
  | INumber n => if n <=? 9 then number_button n s else None
  | IUndo => undo_button s
  | IHint => hint_button solve s
  | INew p => if length p =? 81 then Some (new_button p s) else None
  end.

Fixpoint run (solve : SudokuState -> option SudokuState) (l : list intent)
  (s : session) : option session :=
  match l with
  | [] => Some s
  | a :: t =>
      match run_intent solve a s with
      | None => None
      | Some s' => run solve t s'
      end
  end.

(** ** Properties of move histories *)

(** [P] holds of every entry and its successor. *)
Fixpoint adjacent_pairs (P : SudokuState -> SudokuState -> Prop)
  (l : list SudokuState) : Prop :=
  match l with
  | a :: ((b :: _) as t) => P a b /\ adjacent_pairs P t
  | _ => True
  end.

Definition differ_somewhere (a b : SudokuState) : Prop :=
  exists k, k < 81 /\ cell a k <> cell b k.

Definition differ_exactly_one (a b : SudokuState) : Prop :=
  exists k, k < 81 /\ cell a k <> cell b k /\
    forall j, j < 81 -> j <> k -> cell a j = cell b j.

(** The invariant of the session signals kept by every handler. *)
Definition session_inv (s : session) : Prop :=
  hd_error (moves s) = Some (initial_sudoku s) /\
  last_opt (moves s) = Some (sudoku s) /\
  Forall (fun g => length g = 81) (moves s) /\
  (conflicting s = [] \/ conflicting s = get_all_conflicting_cells (sudoku s)) /\
  adjacent_pairs differ_somewhere (moves s).

(** ** Concrete grids *)

Definition empty_grid : SudokuState := repeat 0 81.

(** A complete valid grid: row [r], column [c] holds
    [(3r + r/3 + c) mod 9 + 1]. *)
Definition solution_grid : SudokuState :=
  map (fun k => (k / 9 * 3 + k / 27 + k mod 9) mod 9 + 1) (seq 0 81).

Definition solver_const (_ : SudokuState) : option SudokuState :=
  Some solution_grid.

(** [empty_grid] with 5 written at index 0. *)
Definition grid_five : SudokuState := set_nth empty_grid 0 5.

(** Select cell 0 and write 5. *)
Definition write_five : list intent := [ISelect 0; INumber 5].

(** Select cell 0, write 5, then erase it with the button 0. *)
Definition write_then_erase : list intent := [ISelect 0; INumber 5; INumber 0].

(** Write 5 in cells 0 and 1 (a row conflict), then ask for a hint. *)
Definition two_fives_then_hint : list intent :=
  [ISelect 0; INumber 5; ISelect 1; INumber 5; IHint].

(** [solution_grid] with its first cell left empty. *)
Definition puzzle_one_blank : SudokuState := set_nth solution_grid 0 0.

(** Fill the only empty cell with 2 (its row already holds 2 at index 1). *)
Definition wrong_last_digit : list intent := [ISelect 0; INumber 2].

(** Scenario B of the spec: 1 at indices 0 and 8 (same row), 0 elsewhere. *)
Definition scenario_b : SudokuState := set_nth (set_nth empty_grid 0 1) 8 1.

(** ** [get_class]: the CSS classes of a cell *)

(** [get_class] (utils.rs). The [u8] argument is a [nat]; [format!] is
    [String.append]. *)
Definition get_class (id : nat) (mutable : bool) : string :=
  let base_class :=
    match id with
    | 0 | 3 | 6 | 27 | 30 | 33 | 54 | 57 | 60 => "tsb lsb rdb bdb"
    | 1 | 4 | 7 | 28 | 31 | 34 | 55 | 58 | 61 => "tsb  bdb"
    | 2 | 5 | 29 | 32 | 56 | 59 => "tsb bdb ldb"
    | 8 | 35 | 62 => "tsb rsb bdb ldb"
    | 9 | 12 | 15 | 36 | 39 | 42 | 63 | 66 | 69 => "lsb rdb bdb"
    | 10 | 13 | 16 | 37 | 40 | 43 | 64 | 67 | 70 => "bdb"
    | 11 | 14 | 38 | 41 | 65 | 68 => "bdb ldb"
    | 18 | 21 | 24 | 45 | 48 | 51 => "lsb rdb"
    | 20 | 23 | 47 | 50 => "ldb"
    | 17 | 44 | 71 => "rsb ldb bdb"
    | 26 | 53 => "rsb ldb"
    | 72 | 75 | 78 => "bsb lsb rdb"
    | 73 | 76 | 79 => "bsb"
    | 74 | 77 => "bsb ldb"
    | 80 => "bsb rsb ldb"
    | _ => ""
    end%string in
  if mutable then String.append base_class " input" else base_class.

(** A [class] attribute as the browser reads it: the space-separated
    tokens, empty ones dropped. [cur] is the token read so far. *)
Fixpoint class_tokens_from (cur : string) (s : string) : list string :=
  match s with
  | EmptyString => if String.eqb cur "" then [] else [cur]
  | String c t =>
      if Ascii.eqb c " "%char then
        (if String.eqb cur "" then [] else [cur]) ++ class_tokens_from "" t
      else class_tokens_from (String.append cur (String c EmptyString)) t
  end.

Definition class_list (s : string) : list string := class_tokens_from "" s.

(** The tokens expected at a position of the board, as a list. *)
Definition border_tokens (id : nat) (mutable : bool) : list string :=
  (if id / 9 mod 3 =? 0 then ["tsb"%string] else []) ++
  (if negb (id / 9 mod 3 =? 2) then ["bdb"%string] else []) ++
  (if id / 9 =? 8 then ["bsb"%string] else []) ++
  (if id mod 9 mod 3 =? 0 then ["lsb"%string] else []) ++
  (if id mod 9 mod 3 =? 0 then ["rdb"%string] else []) ++
  (if id mod 9 mod 3 =? 2 then ["ldb"%string] else []) ++
  (if id mod 9 =? 8 then ["rsb"%string] else []) ++
  (if mutable then ["input"%string] else []).

Definition same_tokens (l m : list string) : bool :=
  forallb (fun w => existsb (String.eqb w) m) l &&
  forallb (fun w => existsb (String.eqb w) l) m.

(** Checked on every index by evaluation. *)
Definition get_class_ok (id : nat) : bool :=
  same_tokens (class_list (get_class id false)) (border_tokens id false) &&
  same_tokens (class_list (get_class id true)) (border_tokens id true).

(** ** [SudokuBoard]: the rendered cells *)

(** The props of one rendered [Cell]. *)
Record cell_props := mk_cell_props {
  cp_index : nat;
  cp_value : nat;
  cp_selected : bool;
  cp_highlighted : bool;
  cp_class : string;
  cp_mutable : bool
}.

(** The [Cell]s rendered by [SudokuBoard]: one per entry of the last move,
    enumerated; [None] is the failing [expect] on an empty move list. Both
    grids are [[u8; 81]] arrays, so [u8::try_from(index)] and
    [initial_sudoku[index]] never fail. *)
Definition render_cells (s : session) : option (list cell_props) :=
  match last_opt (moves s) with
  | None => None
  | Some last_sudoku =>
      Some (map (fun '(index, value) =>
                   mk_cell_props index value (clicked s =? index) false
                     (get_class index (cell (initial_sudoku s) index =? 0))
                     (cell (initial_sudoku s) index =? 0))
                (combine (seq 0 (length last_sudoku)) last_sudoku))
  end.

(** ** The selection signals *)

(** [Clicked] holds a board index and [Related] its related cells, or
    [Clicked] holds the sentinel and [Related] is empty. *)
Definition selection_ok (s : session) : Prop :=
  (clicked s < 81 /\ related s = get_related_cells (clicked s)) \/
  (clicked s = no_selection /\ related s = []).

(** The zeroing done by [remove_conflicting_cells], written as a fold. *)
Definition zero_cells (b : SudokuState) (cells : list nat) : SudokuState :=
  fold_left (fun g c => set_nth g c 0) cells b.

(** ** Lemmas on the Vec helpers *)

Lemma forallb_seq (f : nat -> bool) (n : nat) :
  forallb f (seq 0 n) = true -> forall i, i < n -> f i = true.
Proof.
  intros H i Hi. rewrite forallb_forall in H. apply H. apply in_seq. lia.
Qed.

Lemma mem_In (x : nat) (l : list nat) : mem x l = true <-> In x l.
Proof.
  unfold mem. rewrite existsb_exists. split.
  - intros [y [Hy Heq]]. apply Nat.eqb_eq in Heq. subst. exact Hy.
  - intros H. exists x. split; [exact H | apply Nat.eqb_refl].
Qed.

Lemma insert_sorted_In (x y : nat) (l : list nat) :
  In y (insert_sorted x l) <-> x = y \/ In y l.
Proof.
  induction l as [|z t IH]; simpl.
  - tauto.
  - destruct (x <=? z); simpl; [tauto|]. rewrite IH. split; intros [H|[H|H]]; auto.
Qed.

Lemma sort_unstable_In (y : nat) (l : list nat) :
  In y (sort_unstable l) <-> In y l.
Proof.
  induction l as [|x t IH]; simpl; [tauto|].
  rewrite insert_sorted_In, IH. tauto.
Qed.

Lemma insert_sorted_Sorted (x : nat) (l : list nat) :
  Sorted le l -> Sorted le (insert_sorted x l).
Proof.
  induction 1 as [|z t Ht IH Hhd]; simpl.
  - repeat constructor.
  - destruct (x <=? z) eqn:E.
    + apply Nat.leb_le in E. constructor; [constructor; assumption | constructor; exact E].
    + apply Nat.leb_gt in E. constructor; [exact IH|].
      destruct t as [|w t']; simpl.
      * constructor. lia.
      * inversion Hhd; subst. destruct (x <=? w); constructor; lia.
Qed.

Lemma sort_unstable_Sorted (l : list nat) : Sorted le (sort_unstable l).
Proof.
  induction l as [|x t IH]; simpl; [constructor|].
  apply insert_sorted_Sorted, IH.
Qed.

Lemma dedup_from_In (prev y : nat) (l : list nat) :
  In y (dedup_from prev l) -> In y l.
Proof.
  revert prev. induction l as [|x t IH]; intros prev; simpl; [tauto|].
  destruct (x =? prev); simpl.
  - intros H. right. eapply IH. exact H.
  - intros [H|H]; [left; exact H | right; eapply IH; exact H].
Qed.

Lemma dedup_from_In_back (prev y : nat) (l : list nat) :
  In y l -> y = prev \/ In y (dedup_from prev l).
Proof.
  revert prev. induction l as [|x t IH]; intros prev; simpl; [tauto|].
  destruct (x =? prev) eqn:E; simpl.
  - apply Nat.eqb_eq in E. subst. intros [H|H]; [left; auto | apply IH; exact H].
  - intros [H|H]; [right; left; exact H|].
    destruct (IH x H) as [H'|H']; [right; left; auto | right; right; exact H'].
Qed.

Lemma dedup_In (y : nat) (l : list nat) : In y (dedup l) <-> In y l.
Proof.
  destruct l as [|x t]; simpl; [tauto|]. split.
  - intros [H|H]; [left; exact H | right; eapply dedup_from_In; exact H].
  - intros [H|H]; [left; exact H|].
    destruct (dedup_from_In_back x y t H) as [H'|H']; [left; auto | right; exact H'].
Qed.

(** Every element kept after [prev] is strictly above it. *)
Lemma dedup_from_Sorted (prev : nat) (l : list nat) :
  Sorted le (prev :: l) -> Sorted lt (prev :: dedup_from prev l).
Proof.
  revert prev. induction l as [|x t IH]; intros prev H; simpl.
  - repeat constructor.
  - apply Sorted_inv in H as [Hs Hhd]. inversion Hhd; subst.
    destruct (x =? prev) eqn:E.
    + apply Nat.eqb_eq in E. subst. apply IH. exact Hs.
    + apply Nat.eqb_neq in E. constructor.
      * apply IH. exact Hs.
      * constructor. lia.
Qed.

Lemma dedup_Sorted (l : list nat) : Sorted le l -> Sorted lt (dedup l).
Proof.
  destruct l as [|x t]; simpl; [constructor|]. apply dedup_from_Sorted.
Qed.

Lemma filter_StronglySorted (p : nat -> bool) (l : list nat) :
  StronglySorted lt l -> StronglySorted lt (filter p l).
Proof.
  induction 1 as [|x t Ht IH Hall]; simpl; [constructor|].
  destruct (p x); [|exact IH].
  constructor; [exact IH|].
  rewrite Forall_forall in *. intros y Hy. apply filter_In in Hy as [Hy _].
  apply Hall, Hy.
Qed.

Lemma Sorted_lt_strong (l : list nat) : Sorted lt l -> StronglySorted lt l.
Proof.
  apply Sorted_StronglySorted. intros a b c; apply Nat.lt_trans.
Qed.

Lemma StronglySorted_lt_NoDup (l : list nat) : StronglySorted lt l -> NoDup l.
Proof.
  induction 1 as [|x t Ht IH Hall]; constructor; [|exact IH].
  rewrite Forall_forall in Hall. intros Hx. specialize (Hall x Hx). lia.
Qed.

Lemma get_related_cells_sorted (i : nat) : Sorted lt (get_related_cells i).
Proof.
  unfold get_related_cells, retain. apply StronglySorted_Sorted.
  apply filter_StronglySorted, Sorted_lt_strong, dedup_Sorted,
        sort_unstable_Sorted.
Qed.

Lemma get_related_cells_self (i : nat) : ~ In i (get_related_cells i).
Proof.
  unfold get_related_cells, retain. rewrite filter_In.
  intros [_ H]. rewrite Nat.eqb_refl in H. discriminate.
Qed.

Lemma related_ok_all (i : nat) : i < 81 -> related_ok i = true.
Proof.
  apply (forallb_seq related_ok 81). vm_compute. reflexivity.
Qed.

Lemma get_related_cells_spec (i j : nat) :
  i < 81 -> In j (get_related_cells i) <-> peer i j = true.
Proof.
  intros Hi. pose proof (related_ok_all i Hi) as H. unfold related_ok in H.
  apply andb_prop in H as [H Hbound]. apply andb_prop in H as [_ Hmem].
  rewrite forallb_forall in Hbound, Hmem.
  destruct (j <? 81) eqn:Ej.
  - apply Nat.ltb_lt in Ej.
    assert (Hj : In j (seq 0 81)) by (apply in_seq; lia).
    specialize (Hmem j Hj). apply Bool.eqb_prop in Hmem.
    rewrite <- mem_In, Hmem. tauto.
  - unfold peer. rewrite Ej, !andb_false_l. split; [|intros Hf; discriminate Hf].
    intros Hin. specialize (Hbound j Hin). congruence.
Qed.

Lemma peer_sym (i j : nat) : i < 81 -> j < 81 -> peer i j = peer j i.
Proof.
  intros Hi Hj. unfold peer, same_box.
  apply Nat.ltb_lt in Hi. apply Nat.ltb_lt in Hj. rewrite Hi, Hj.
  rewrite (Nat.eqb_sym j i), (Nat.eqb_sym (j / 9)), (Nat.eqb_sym (j mod 9)),
          (Nat.eqb_sym (j / 9 / 3)), (Nat.eqb_sym (j mod 9 / 3)).
  reflexivity.
Qed.

Lemma peer_spec (i j : nat) :
  peer i j = true <->
  j < 81 /\ j <> i /\
  (i / 9 = j / 9 \/ i mod 9 = j mod 9 \/
   (i / 9 / 3 = j / 9 / 3 /\ i mod 9 / 3 = j mod 9 / 3)).
Proof.
  unfold peer, same_box.
  rewrite !andb_true_iff, !orb_true_iff, !andb_true_iff, negb_true_iff,
          Nat.ltb_lt, Nat.eqb_neq, !Nat.eqb_eq.
  tauto.
Qed.

Lemma get_related_cells_NoDup (i : nat) : NoDup (get_related_cells i).
Proof.
  apply StronglySorted_lt_NoDup, Sorted_lt_strong, get_related_cells_sorted.
Qed.

Lemma get_conflicting_cells_In (board : SudokuState) (index j : nat) :
  In j (get_conflicting_cells board index) <->
  cell board index <> 0 /\ In j (get_related_cells index) /\
  cell board j = cell board index.
Proof.
  unfold get_conflicting_cells.
  destruct (cell board index =? 0) eqn:E.
  - apply Nat.eqb_eq in E. split; [intros []|]. intros [H _]. contradiction.
  - apply Nat.eqb_neq in E. rewrite filter_In, Nat.eqb_eq. tauto.
Qed.

Lemma filled_cells_In (b : SudokuState) (v : nat) :
  In v (filled_cells b) <-> v < length b /\ cell b v <> 0.
Proof.
  unfold filled_cells. rewrite filter_In, in_seq, negb_true_iff, Nat.eqb_neq.
  split; intros [H1 H2]; split; (lia || exact H2).
Qed.

Lemma get_all_conflicting_cells_In (b : SudokuState) (x : nat) :
  In x (get_all_conflicting_cells b) <->
  exists v, (v < length b /\ cell b v <> 0) /\ In x (get_conflicting_cells b v).
Proof.
  unfold get_all_conflicting_cells.
  rewrite dedup_In, sort_unstable_In, in_flat_map.
  split; intros [v [Hv Hx]]; exists v; split; try exact Hx;
    apply filled_cells_In; exact Hv.
Qed.

Lemma find_changed_from_spec (k : nat) (p c : SudokuState) :
  length p = length c ->
  (find_changed_from k p c = None <-> p = c) /\
  (forall r, find_changed_from k p c = Some r ->
     k <= r /\ r - k < length p /\ nth (r - k) p 0 <> nth (r - k) c 0 /\
     forall j, j < r - k -> nth j p 0 = nth j c 0).
Proof.
  revert k c. induction p as [|x p IH]; intros k c Hlen.
  - destruct c; [|discriminate]. simpl. split; [tauto|]. discriminate.
  - destruct c as [|y c]; [discriminate|]. simpl in Hlen. injection Hlen as Hlen.
    destruct (IH (S k) c Hlen) as [IHnone IHsome]. simpl.
    destruct (x =? y) eqn:E.
    + apply Nat.eqb_eq in E. subst y. split.
      * rewrite IHnone. split; [intros ->; reflexivity | intros H; injection H; auto].
      * intros r Hr. destruct (IHsome r Hr) as (H1 & H2 & H3 & H4).
        replace (r - k) with (S (r - S k)) by lia. simpl.
        split; [lia|]. split; [lia|]. split; [exact H3|].
        intros [|j] Hj; simpl; [reflexivity|]. apply H4. lia.
    + apply Nat.eqb_neq in E. split.
      * split; [discriminate|]. intros H. injection H as H _. contradiction.
      * intros r Hr. injection Hr as <-. rewrite Nat.sub_diag. simpl.
        split; [lia|]. split; [lia|]. split; [exact E|]. intros j Hj; lia.
Qed.

(** ** Claims on [utils.rs] *)

(** C2: for every index [i] in [0..=80], [get_related_cells i] holds
    exactly 20 distinct indices, [i] is not one of them, and they are the
    indices of the row, the column and the 3x3 box of [i]. *)
Theorem get_related_cells_twenty (i : nat) :
  i < 81 ->
  length (get_related_cells i) = 20 /\ ~ In i (get_related_cells i) /\
  NoDup (get_related_cells i) /\
  (forall j, In j (get_related_cells i) <->
     j < 81 /\ j <> i /\
     (i / 9 = j / 9 \/ i mod 9 = j mod 9 \/
      (i / 9 / 3 = j / 9 / 3 /\ i mod 9 / 3 = j mod 9 / 3))).
Proof.
  intros Hi. split; [|split; [|split]].
  - pose proof (related_ok_all i Hi) as H. unfold related_ok in H.
    apply andb_prop in H as [H _]. apply andb_prop in H as [H _].
    apply Nat.eqb_eq, H.
  - apply get_related_cells_self.
  - apply get_related_cells_NoDup.
  - intros j. rewrite get_related_cells_spec by exact Hi. apply peer_spec.
Qed.

(** C3: the single-cell conflicts of a cell with value 0 are empty;
    otherwise they are exactly its related cells holding the same value; the
    queried index is never among them. *)
Theorem get_conflicting_cells_spec (board : SudokuState) (index : nat) :
  (cell board index = 0 -> get_conflicting_cells board index = []) /\
  (forall j, In j (get_conflicting_cells board index) <->
     cell board index <> 0 /\ In j (get_related_cells index) /\
     cell board j = cell board index) /\
  ~ In index (get_conflicting_cells board index).
Proof.
  split; [|split].
  - intros H. unfold get_conflicting_cells. rewrite H. reflexivity.
  - intros j. apply get_conflicting_cells_In.
  - rewrite get_conflicting_cells_In. intros (_ & H & _).
    exact (get_related_cells_self index H).
Qed.

(** C7: on two 81-cell grids, [find_changed_cell] returns [None] exactly
    when the grids are equal, and otherwise the lowest index where they
    differ. *)
Theorem find_changed_cell_first (previous current : SudokuState) :
  length previous = 81 -> length current = 81 ->
  (find_changed_cell previous current = None <-> previous = current) /\
  (forall k, find_changed_cell previous current = Some k ->
     k < 81 /\ cell previous k <> cell current k /\
     forall j, j < k -> cell previous j = cell current j).
Proof.
  intros Hp Hc.
  assert (Hlen : length previous = length current) by congruence.
  destruct (find_changed_from_spec 0 previous current Hlen) as [Hn Hs].
  split; [exact Hn|]. intros k Hk. destruct (Hs k Hk) as (_ & H2 & H3 & H4).
  rewrite Nat.sub_0_r in *. unfold cell. split; [lia|]. split; [exact H3|].
  exact H4.
Qed.

(** C8: conflict membership is symmetric on indices of the board, and a
    peer with the same non-zero value as a cell is in the whole-grid
    conflict set. *)
Theorem conflicts_symmetric (board : SudokuState) (i j : nat) :
  length board = 81 -> i < 81 -> j < 81 ->
  (In j (get_conflicting_cells board i) <-> In i (get_conflicting_cells board j)) /\
  (In i (get_all_conflicting_cells board) -> In j (get_related_cells i) ->
   cell board j = cell board i -> cell board i <> 0 ->
   In j (get_all_conflicting_cells board)).
Proof.
  intros Hb Hi Hj. split.
  - rewrite !get_conflicting_cells_In,
            !get_related_cells_spec by assumption.
    rewrite (peer_sym i j Hi Hj).
    split; intros (H1 & H2 & H3); (split; [congruence | split; [exact H2 | congruence]]).
  - intros _ Hrel Heq Hnz. apply get_all_conflicting_cells_In.
    exists i. split; [split; [lia | exact Hnz]|].
    apply get_conflicting_cells_In. tauto.
Qed.

(** C10: [get_related_cells] and [get_all_conflicting_cells] return lists
    in strictly increasing order, hence without duplicates. *)
Theorem related_and_conflicts_sorted :
  (forall i, Sorted lt (get_related_cells i) /\ NoDup (get_related_cells i)) /\
  (forall b, Sorted lt (get_all_conflicting_cells b) /\
             NoDup (get_all_conflicting_cells b)).
Proof.
  split; intros x; split.
  - apply get_related_cells_sorted.
  - apply get_related_cells_NoDup.
  - apply dedup_Sorted, sort_unstable_Sorted.
  - apply StronglySorted_lt_NoDup, Sorted_lt_strong, dedup_Sorted,
          sort_unstable_Sorted.
Qed.

(** ** Lemmas on grids and histories *)

Lemma set_nth_length (b : SudokuState) (i v : nat) :
  length (set_nth b i v) = length b.
Proof.
  revert i. induction b as [|x t IH]; intros [|i]; simpl; auto.
Qed.

Lemma set_nth_nth (b : SudokuState) (i v j : nat) :
  cell (set_nth b i v) j =
  if (j =? i) && (i <? length b) then v else cell b j.
Proof.
  unfold cell. revert i j.
  induction b as [|x t IH]; intros [|i] [|j]; simpl; try reflexivity;
    try (destruct (_ =? _); reflexivity).
  exact (IH i j).
Qed.

Lemma remove_conflicting_cells_length (b : SudokuState) (cells : list nat) :
  length (remove_conflicting_cells b cells) = length b.
Proof.
  revert b. induction cells as [|c t IH]; intros b; simpl; [reflexivity|].
  rewrite IH. apply set_nth_length.
Qed.

Lemma remove_conflicting_cells_keep_zero (b : SudokuState) (cells : list nat)
  (c : nat) :
  cell b c = 0 -> cell (remove_conflicting_cells b cells) c = 0.
Proof.
  revert b. induction cells as [|x t IH]; intros b H; simpl; [exact H|].
  apply IH. rewrite set_nth_nth. destruct (_ && _); [reflexivity | exact H].
Qed.

Lemma remove_conflicting_cells_zero (b : SudokuState) (cells : list nat)
  (c : nat) :
  In c cells -> c < length b -> cell (remove_conflicting_cells b cells) c = 0.
Proof.
  revert b. induction cells as [|x t IH]; intros b Hin Hc; [destruct Hin|].
  simpl. destruct (in_dec Nat.eq_dec c t) as [Ht|Ht].
  - apply IH; [exact Ht|]. rewrite set_nth_length. exact Hc.
  - destruct Hin as [<-|Hin]; [|contradiction].
    apply remove_conflicting_cells_keep_zero. rewrite set_nth_nth.
    rewrite Nat.eqb_refl. apply Nat.ltb_lt in Hc. rewrite Hc. reflexivity.
Qed.

Lemma get_hint_length (solve : SudokuState -> option SudokuState)
  (b g : SudokuState) :
  get_hint solve b = Some g -> length g = length b.
Proof.
  unfold get_hint. destruct (first_zero_from 0 _).
  - destruct (solve _); intros H; inversion H; subst.
    rewrite set_nth_length. apply remove_conflicting_cells_length.
  - intros H. inversion H; subst. apply remove_conflicting_cells_length.
Qed.

Lemma hint_value_length (solve : SudokuState -> option SudokuState)
  (b g : SudokuState) :
  hint_value solve b = Some g -> length g = length b.
Proof.
  unfold hint_value. destruct (get_hint solve b) eqn:E.
  - intros H. inversion H; subst. eapply get_hint_length; exact E.
  - intros H. apply get_hint_length in H. rewrite H.
    apply remove_conflicting_cells_length.
Qed.

Lemma last_opt_app {A} (l : list A) (x : A) : last_opt (l ++ [x]) = Some x.
Proof.
  induction l as [|a t IH]; [reflexivity|].
  simpl. rewrite IH. destruct t; reflexivity.
Qed.

Lemma last_opt_Some {A} (l : list A) (x : A) :
  last_opt l = Some x -> l = removelast l ++ [x].
Proof.
  induction l as [|a t IH]; [discriminate|].
  destruct t as [|b t'].
  - simpl. intros H. injection H as ->. reflexivity.
  - intros H. change (last_opt (b :: t') = Some x) in H.
    change (removelast (a :: b :: t')) with (a :: removelast (b :: t')).
    rewrite (IH H) at 1. reflexivity.
Qed.

Lemma last_opt_None {A} (l : list A) : last_opt l = None -> l = [].
Proof.
  induction l as [|a t IH]; [reflexivity|].
  destruct t as [|b t']; [discriminate|]. intros H. specialize (IH H). discriminate.
Qed.

Lemma hd_error_app {A} (l m : list A) : l <> [] -> hd_error (l ++ m) = hd_error l.
Proof. destruct l; [contradiction | reflexivity]. Qed.

Lemma adjacent_pairs_app (P : SudokuState -> SudokuState -> Prop)
  (l : list SudokuState) (x : SudokuState) :
  adjacent_pairs P (l ++ [x]) <->
  adjacent_pairs P l /\ (forall y, last_opt l = Some y -> P y x).
Proof.
  induction l as [|a t IH].
  - simpl. split; [intros _; split; [exact I | discriminate] | intros; exact I].
  - destruct t as [|b t'].
    + simpl. split.
      * intros [H _]. split; [exact I|]. intros y Hy. injection Hy as <-. exact H.
      * intros [_ H]. split; [apply H; reflexivity | exact I].
    + change ((a :: b :: t') ++ [x]) with (a :: b :: (t' ++ [x])).
      change (adjacent_pairs P (a :: b :: t' ++ [x])) with
        (P a b /\ adjacent_pairs P ((b :: t') ++ [x])).
      change (adjacent_pairs P (a :: b :: t')) with
        (P a b /\ adjacent_pairs P (b :: t')).
      change (last_opt (a :: b :: t')) with (last_opt (b :: t')).
      rewrite IH. tauto.
Qed.

Lemma set_conflicting_same (s : session) : set_conflicting s (conflicting s) = s.
Proof. destruct s; reflexivity. Qed.

Lemma get_all_conflicting_cells_nonzero (b : SudokuState) (c : nat) :
  length b = 81 -> In c (get_all_conflicting_cells b) ->
  c < 81 /\ cell b c <> 0.
Proof.
  intros Hb Hc. apply get_all_conflicting_cells_In in Hc as [v [[Hv Hnz] Hc]].
  apply get_conflicting_cells_In in Hc as (_ & Hrel & Heq).
  rewrite Hb in Hv. rewrite (get_related_cells_spec v c Hv), peer_spec in Hrel.
  split; [tauto | congruence].
Qed.

(** ** The session invariant is kept by every handler *)

Lemma last_opt_In {A} (l : list A) (x : A) : last_opt l = Some x -> In x l.
Proof.
  intros H. apply last_opt_Some in H. rewrite H. apply in_or_app. right. left.
  reflexivity.
Qed.

Lemma session_inv_sudoku_length (s : session) :
  session_inv s -> length (sudoku s) = 81.
Proof.
  intros (_ & Hlast & Hlen & _). rewrite Forall_forall in Hlen.
  apply Hlen, last_opt_In, Hlast.
Qed.

Lemma session_inv_moves_nonempty (s : session) : session_inv s -> moves s <> [].
Proof. intros (Hhd & _) E. rewrite E in Hhd. discriminate. Qed.

Lemma session_inv_push (s : session) (g : SudokuState) (c : list nat) :
  session_inv s -> length g = 81 ->
  (c = [] \/ c = get_all_conflicting_cells g) -> differ_somewhere (sudoku s) g ->
  forall k m r,
  session_inv (mk_session (initial_sudoku s) (moves s ++ [g]) g k m r c).
Proof.
  intros Hinv Hg Hc Hd k m r. pose proof (session_inv_moves_nonempty s Hinv) as Hne.
  destruct Hinv as (Hhd & Hlast & Hlen & _ & Hadj).
  unfold session_inv; simpl.
  split; [rewrite hd_error_app; assumption|].
  split; [apply last_opt_app|].
  split; [apply Forall_app; split; [assumption | constructor; [exact Hg | constructor]]|].
  split; [exact Hc|].
  apply adjacent_pairs_app. split; [assumption|].
  intros y Hy. rewrite Hlast in Hy. injection Hy as <-. exact Hd.
Qed.

Lemma session_inv_init (p : SudokuState) :
  length p = 81 -> session_inv (app_init p).
Proof.
  intros Hp. unfold session_inv, app_init; simpl.
  split; [reflexivity|]. split; [reflexivity|].
  split; [constructor; [exact Hp | constructor]|]. split; [left; reflexivity | exact I].
Qed.

Lemma session_inv_new (p : SudokuState) (s : session) :
  length p = 81 -> session_inv (new_button p s).
Proof. apply session_inv_init. Qed.

Lemma session_inv_select (i : nat) (s : session) :
  session_inv s -> session_inv (select_cell i s).
Proof. unfold session_inv, select_cell; simpl. tauto. Qed.

Lemma session_inv_number (n : nat) (s s' : session) :
  session_inv s -> number_button n s = Some s' -> session_inv s'.
Proof.
  intros Hinv. unfold number_button.
  destruct (nth_error (sudoku s) (clicked s)) as [v|] eqn:Ev; [|discriminate].
  destruct (v =? n) eqn:Evn; [intros H; injection H as <-; exact Hinv|].
  destruct (mutable s); [|intros H; injection H as <-; exact Hinv].
  intros H; injection H as <-. unfold set_conflicting, commit; simpl.
  pose proof (session_inv_sudoku_length s Hinv) as Hs.
  assert (Hk : clicked s < length (sudoku s)) by
    (apply nth_error_Some; rewrite Ev; discriminate).
  apply session_inv_push; [exact Hinv | rewrite set_nth_length; exact Hs
                          | right; reflexivity |].
  exists (clicked s). split; [lia|].
  rewrite set_nth_nth, Nat.eqb_refl. apply Nat.ltb_lt in Hk. rewrite Hk. simpl.
  unfold cell. rewrite (nth_error_nth _ _ _ Ev). apply Nat.eqb_neq, Evn.
Qed.

Lemma session_inv_undo (s s' : session) :
  session_inv s -> undo_button s = Some s' -> session_inv s'.
Proof.
  intros Hinv. pose proof Hinv as (Hhd & Hlast & Hlen & Hconf & Hadj).
  unfold undo_button. rewrite Hlast.
  destruct (grid_eq_dec (sudoku s) (initial_sudoku s)) as [E|E].
  - intros H; injection H as <-. rewrite set_conflicting_same. exact Hinv.
  - unfold vec_pop. rewrite Hlast.
    destruct (last_opt (removelast (moves s))) as [g|] eqn:Eg; [|discriminate].
    destruct (find_changed_cell (sudoku s) g) as [k|]; [|discriminate].
    intros H; injection H as <-.
    apply last_opt_Some in Hlast.
    set (r := removelast (moves s)) in *.
    assert (Hr : r <> []) by (intros Hr; rewrite Hr in Eg; discriminate).
    rewrite Hlast in Hhd, Hlen, Hadj. rewrite hd_error_app in Hhd by exact Hr.
    apply Forall_app in Hlen as [Hlen _].
    apply adjacent_pairs_app in Hadj as [Hadj _].
    unfold session_inv; simpl.
    split; [exact Hhd|]. split; [exact Eg|]. split; [exact Hlen|].
    split; [right; reflexivity | exact Hadj].
Qed.

Lemma session_inv_cleanup (s : session) :
  session_inv s -> session_inv (hint_cleanup s (sudoku s)).
Proof.
  intros Hinv. pose proof Hinv as (Hhd & Hlast & Hlen & Hconf & Hadj).
  unfold hint_cleanup. destruct (conflicting s) as [|c t] eqn:Ec; [exact Hinv|].
  destruct Hconf as [Hc|Hc]; [discriminate|].
  assert (Hin : In c (get_all_conflicting_cells (sudoku s))) by
    (rewrite <- Hc; left; reflexivity).
  pose proof (session_inv_sudoku_length s Hinv) as Hs.
  destruct (get_all_conflicting_cells_nonzero _ _ Hs Hin) as [Hc81 Hnz].
  apply session_inv_push; [exact Hinv
                          | rewrite remove_conflicting_cells_length; exact Hs
                          | left; reflexivity |].
  exists c. split; [exact Hc81|].
  rewrite remove_conflicting_cells_zero; [exact Hnz | exact Hin | lia].
Qed.

Lemma session_inv_fill (solve : SudokuState -> option SudokuState)
  (s1 s' : session) :
  session_inv s1 -> hint_fill solve s1 = Some s' -> session_inv s'.
Proof.
  intros Hinv. unfold hint_fill.
  destruct (hint_value solve (sudoku s1)) as [g|] eqn:Eg; [|discriminate].
  destruct (existsb _ _); [|intros H; injection H as <-; exact Hinv].
  destruct (find_changed_cell (sudoku s1) g) as [k|] eqn:Ek; [|discriminate].
  intros H; injection H as <-.
  pose proof (session_inv_sudoku_length s1 Hinv) as Hs.
  assert (Hg : length g = 81) by (rewrite (hint_value_length _ _ _ Eg); exact Hs).
  assert (Hlen : length (sudoku s1) = length g) by congruence.
  destruct (find_changed_from_spec 0 (sudoku s1) g Hlen) as [_ Hsome].
  destruct (Hsome k Ek) as (_ & Hk & Hd & _). rewrite Nat.sub_0_r in Hk, Hd.
  apply session_inv_push; [exact Hinv | exact Hg | right; reflexivity |].
  exists k. split; [lia | exact Hd].
Qed.

Lemma session_inv_hint (solve : SudokuState -> option SudokuState)
  (s s' : session) :
  session_inv s -> hint_button solve s = Some s' -> session_inv s'.
Proof.
  intros Hinv. pose proof Hinv as (_ & Hlast & _).
  unfold hint_button. rewrite Hlast.
  apply session_inv_fill, session_inv_cleanup, Hinv.
Qed.

Lemma reachable_session_inv (solve : SudokuState -> option SudokuState)
  (s : session) :
  reachable solve s -> session_inv s.
Proof.
  induction 1 as [p Hp | s s' _ IH Hstep].
  - apply session_inv_init, Hp.
  - destruct Hstep as [s i _ | s n s' _ H | s s' H | s s' H | s p Hp].
    + apply session_inv_select, IH.
    + eapply session_inv_number; eassumption.
    + eapply session_inv_undo; eassumption.
    + eapply session_inv_hint; eassumption.
    + apply session_inv_new, Hp.
Qed.

Lemma run_reachable (solve : SudokuState -> option SudokuState)
  (l : list intent) (s s' : session) :
  reachable solve s -> run solve l s = Some s' -> reachable solve s'.
Proof.
  revert s. induction l as [|a t IH]; intros s Hs Hrun; simpl in Hrun.
  - injection Hrun as <-. exact Hs.
  - destruct (run_intent solve a s) as [s1|] eqn:Ea; [|discriminate].
    apply (IH s1); [|exact Hrun].
    apply (reach_step solve s s1 Hs).
    destruct a as [i|n| | |p]; simpl in Ea.
    + destruct (i <? 81) eqn:E; [|discriminate]. injection Ea as <-.
      apply step_select, Nat.ltb_lt, E.
    + destruct (n <=? 9) eqn:E; [|discriminate].
      apply step_number with n; [apply Nat.leb_le, E | exact Ea].
    + apply step_undo, Ea.
    + apply step_hint, Ea.
    + destruct (length p =? 81) eqn:E; [|discriminate]. injection Ea as <-.
      apply step_new, Nat.eqb_eq, E.
Qed.

Lemma differ_exactly_one_set_nth (b : SudokuState) (i v : nat) :
  length b = 81 -> i < 81 -> cell b i <> v ->
  differ_exactly_one b (set_nth b i v).
Proof.
  intros Hb Hi Hv. exists i. split; [exact Hi|].
  assert (Hlt : (i <? length b) = true) by (apply Nat.ltb_lt; lia).
  split.
  - rewrite set_nth_nth, Nat.eqb_refl, Hlt. exact Hv.
  - intros j _ Hj. rewrite set_nth_nth. apply Nat.eqb_neq in Hj. rewrite Hj.
    reflexivity.
Qed.

Lemma differ_exactly_one_sym (a b : SudokuState) :
  differ_exactly_one a b -> differ_exactly_one b a.
Proof.
  intros [k (Hk & Hd & Hall)]. exists k. split; [exact Hk|].
  split; [congruence|]. intros j Hj Hne. symmetry. apply Hall; assumption.
Qed.

Lemma first_zero_from_none (k : nat) (b : SudokuState) :
  existsb (fun v => v =? 0) b = false -> first_zero_from k b = None.
Proof.
  revert k. induction b as [|x t IH]; intros k H; simpl in *; [reflexivity|].
  apply orb_false_iff in H as [H1 H2]. rewrite H1. apply IH, H2.
Qed.

(** ** Claims on the board handlers *)

(** C1 (code bug): with no cell selected, [Clicked] holds the sentinel 90
    and [NumberButton] indexes the 81-cell grid with it, which panics, in
    every reachable state (the initial one and the one after New Game
    among them). *)
Theorem number_button_unselected_panics
  (solve : SudokuState -> option SudokuState) (n : nat) (s : session) :
  reachable solve s -> clicked s = no_selection -> number_button n s = None.
Proof.
  intros Hr Hc.
  pose proof (session_inv_sudoku_length s (reachable_session_inv solve s Hr)) as Hs.
  unfold number_button. rewrite Hc.
  replace (nth_error (sudoku s) no_selection) with (@None nat); [reflexivity|].
  symmetry. apply nth_error_None. rewrite Hs. unfold no_selection. lia.
Qed.

Lemma number_button_unselected_panics_witness :
  reachable solver_const (app_init empty_grid) /\
  clicked (app_init empty_grid) = no_selection /\
  number_button 1 (app_init empty_grid) = None.
Proof.
  assert (Hr : reachable solver_const (app_init empty_grid))
    by (apply reach_init; reflexivity).
  split; [exact Hr|]. split; [reflexivity|].
  apply (number_button_unselected_panics solver_const 1 _ Hr). reflexivity.
Defined.

(** C4 (amended): for a history whose first entry is the initial puzzle,
    undo is a no-op when the last entry equals the initial puzzle (so in
    particular for a one-entry history); otherwise the history has at least
    two entries and undo pops the last one and reveals the new last entry,
    which keeps the initial snapshot first, unless the popped and revealed
    grids are identical, where [find_changed_cell] finds nothing and the
    handler aborts. *)
Theorem undo_button_spec (s : session) :
  moves s <> [] -> hd_error (moves s) = Some (initial_sudoku s) ->
  (length (moves s) = 1 -> undo_button s = Some s) /\
  (last_opt (moves s) = Some (initial_sudoku s) -> undo_button s = Some s) /\
  (forall g, last_opt (moves s) = Some g -> g <> initial_sudoku s ->
     2 <= length (moves s) /\
     exists g', last_opt (removelast (moves s)) = Some g' /\
       hd_error (removelast (moves s)) = Some (initial_sudoku s) /\
       undo_button s =
         match find_changed_cell g g' with
         | None => None
         | Some k =>
             Some (mk_session (initial_sudoku s) (removelast (moves s)) g' k
                     (mutable s) (get_related_cells k)
                     (get_all_conflicting_cells g'))
         end).
Proof.
  intros Hne Hhd.
  assert (Hnoop : last_opt (moves s) = Some (initial_sudoku s) ->
                  undo_button s = Some s).
  { intros Hl. unfold undo_button. rewrite Hl.
    destruct (grid_eq_dec (initial_sudoku s) (initial_sudoku s)) as [_|E];
      [|contradiction]. rewrite set_conflicting_same. reflexivity. }
  split; [|split; [exact Hnoop|]].
  - intros H1. apply Hnoop. destruct (moves s) as [|x [|y t]]; try discriminate.
    simpl in Hhd |- *. exact Hhd.
  - intros g Hl Hg. pose proof (last_opt_Some _ _ Hl) as Hsplit.
    set (r := removelast (moves s)) in *.
    assert (Hr : r <> []).
    { intros Hr. rewrite Hr in Hsplit. simpl in Hsplit.
      rewrite Hsplit in Hhd. simpl in Hhd. injection Hhd as Hhd. contradiction. }
    split.
    + rewrite Hsplit, length_app. destruct r; [contradiction|]. simpl. lia.
    + destruct (last_opt r) as [g'|] eqn:Eg'; [|apply last_opt_None in Eg'; contradiction].
      exists g'. split; [reflexivity|]. split.
      * rewrite Hsplit, hd_error_app in Hhd by exact Hr. exact Hhd.
      * unfold undo_button. rewrite Hl.
        destruct (grid_eq_dec g (initial_sudoku s)) as [E|_]; [contradiction|].
        unfold vec_pop. rewrite Hl. fold r. rewrite Eg'. reflexivity.
Qed.

Lemma undo_button_spec_witness :
  moves (app_init empty_grid) <> [] /\
  hd_error (moves (app_init empty_grid)) = Some (initial_sudoku (app_init empty_grid)) /\
  undo_button (app_init empty_grid) = Some (app_init empty_grid).
Proof.
  assert (H1 : moves (app_init empty_grid) <> []) by discriminate.
  assert (H2 : hd_error (moves (app_init empty_grid)) =
               Some (initial_sudoku (app_init empty_grid))) by reflexivity.
  split; [exact H1|]. split; [exact H2|].
  apply (proj1 (undo_button_spec (app_init empty_grid) H1 H2)). reflexivity.
Defined.

(** C4 as stated fails: after writing 5 into cell 0 and erasing it, the
    history has three entries but the last one equals the initial puzzle,
    and undo leaves the whole state unchanged instead of popping. *)
Lemma undo_after_erase_keeps_history :
  exists s, run solver_const write_then_erase (app_init empty_grid) = Some s /\
    reachable solver_const s /\
    hd_error (moves s) = Some (initial_sudoku s) /\
    length (moves s) = 3 /\
    undo_button s = Some s.
Proof.
  eexists. split; [vm_compute; reflexivity|].
  split.
  - apply (run_reachable solver_const write_then_erase (app_init empty_grid)).
    + apply reach_init. reflexivity.
    + vm_compute. reflexivity.
  - split; [reflexivity|]. split; [reflexivity|]. vm_compute. reflexivity.
Qed.

(** C5 (amended): when [g] differs from the last entry of a history (whose
    first entry is the initial puzzle) in exactly one cell and [g] is not
    the initial puzzle, committing [g] and then undoing restores the
    history and reveals its last entry. *)
Theorem undo_commit_inverse (s : session) (g : SudokuState) :
  hd_error (moves s) = Some (initial_sudoku s) ->
  Forall (fun x => length x = 81) (moves s) -> length g = 81 ->
  (forall h, last_opt (moves s) = Some h -> differ_exactly_one h g) ->
  g <> initial_sudoku s ->
  exists s', undo_button (commit s g) = Some s' /\ moves s' = moves s /\
             last_opt (moves s) = Some (sudoku s').
Proof.
  intros Hhd Hlen Hg Hdiff Hinit.
  destruct (last_opt (moves s)) as [h|] eqn:Eh.
  2:{ apply last_opt_None in Eh. rewrite Eh in Hhd. discriminate. }
  assert (Hh : length h = 81) by
    (rewrite Forall_forall in Hlen; apply Hlen, last_opt_In, Eh).
  destruct (Hdiff h eq_refl) as [k (_ & Hk & _)].
  assert (Hgh : length g = length h) by congruence.
  destruct (find_changed_from_spec 0 g h Hgh) as [Hnone _].
  assert (Hfind : find_changed_from 0 g h <> None).
  { rewrite Hnone. intros E. subst. apply Hk. reflexivity. }
  unfold undo_button, commit; simpl. rewrite last_opt_app.
  destruct (grid_eq_dec g (initial_sudoku s)) as [E|_]; [contradiction|].
  unfold vec_pop. rewrite last_opt_app, removelast_last, Eh.
  unfold find_changed_cell.
  destruct (find_changed_from 0 g h) as [k'|] eqn:Ek.
  - eexists. split; [reflexivity|]. split; reflexivity.
  - contradiction.
Qed.

Lemma undo_commit_inverse_witness :
  exists s', undo_button (commit (app_init empty_grid) grid_five) = Some s' /\
             moves s' = moves (app_init empty_grid) /\
             last_opt (moves (app_init empty_grid)) = Some (sudoku s').
Proof.
  apply (undo_commit_inverse (app_init empty_grid) grid_five).
  - reflexivity.
  - repeat constructor.
  - reflexivity.
  - intros h Hh. injection Hh as <-.
    apply differ_exactly_one_set_nth; [reflexivity | lia | discriminate].
  - discriminate.
Defined.

(** C5 as stated fails: after writing 5 into cell 0, the history is
    [[empty_grid; grid_five]]; committing [empty_grid] (one cell away from
    [grid_five], as the erase button does) and undoing leaves three entries,
    since the last one equals the initial puzzle. *)
Lemma undo_commit_initial_not_restored :
  exists s, run solver_const write_five (app_init empty_grid) = Some s /\
    sudoku s = grid_five /\ last_opt (moves s) = Some grid_five /\
    differ_exactly_one grid_five empty_grid /\
    exists s', undo_button (commit s empty_grid) = Some s' /\
               moves s' <> moves s.
Proof.
  eexists. split; [vm_compute; reflexivity|].
  split; [vm_compute; reflexivity|]. split; [vm_compute; reflexivity|].
  split.
  - apply differ_exactly_one_sym, differ_exactly_one_set_nth;
      [reflexivity | lia | discriminate].
  - eexists. split; [vm_compute; reflexivity|].
    intros H. apply (f_equal (@length SudokuState)) in H. discriminate H.
Qed.

(** C6 (amended): in every reachable state the first entry of the history
    is the initial puzzle, the history is not empty, and every entry after
    the first differs from its predecessor in at least one cell. *)
Theorem reachable_history (solve : SudokuState -> option SudokuState)
  (s : session) :
  reachable solve s ->
  hd_error (moves s) = Some (initial_sudoku s) /\ 1 <= length (moves s) /\
  adjacent_pairs differ_somewhere (moves s).
Proof.
  intros Hr. pose proof (reachable_session_inv solve s Hr) as Hinv.
  pose proof (session_inv_moves_nonempty s Hinv) as Hne.
  destruct Hinv as (Hhd & _ & _ & _ & Hadj).
  split; [exact Hhd|]. split; [|exact Hadj].
  destruct (moves s); [contradiction | simpl; lia].
Qed.

Lemma reachable_history_witness :
  reachable solver_const (app_init empty_grid) /\
  hd_error (moves (app_init empty_grid)) = Some (initial_sudoku (app_init empty_grid)) /\
  1 <= length (moves (app_init empty_grid)) /\
  adjacent_pairs differ_somewhere (moves (app_init empty_grid)).
Proof.
  assert (Hr : reachable solver_const (app_init empty_grid))
    by (apply reach_init; reflexivity).
  split; [exact Hr|]. exact (reachable_history solver_const _ Hr).
Defined.

(** C6 as stated fails: after two conflicting 5s in cells 0 and 1, the hint
    first pushes the grid with both conflicting cells cleared, an entry that
    differs from its predecessor in two cells. *)
Lemma hint_cleanup_entry_differs_twice :
  exists s, run solver_const two_fives_then_hint (app_init empty_grid) = Some s /\
    reachable solver_const s /\
    ~ adjacent_pairs differ_exactly_one (moves s).
Proof.
  eexists. split; [vm_compute; reflexivity|]. split.
  - apply (run_reachable solver_const two_fives_then_hint (app_init empty_grid)).
    + apply reach_init. reflexivity.
    + vm_compute. reflexivity.
  - simpl. intros (_ & _ & [k (_ & _ & Hall)] & _).
    destruct (Nat.eq_dec k 0) as [->|Hk0].
    + assert (E := Hall 1 ltac:(lia) ltac:(lia)). vm_compute in E. discriminate E.
    + assert (E := Hall 0 ltac:(lia) ltac:(lia)). vm_compute in E. discriminate E.
Qed.

(** C9 (amended): on a session whose grid has no empty cell and no
    conflict (and whose [Conflicting] signal is empty or the grid's
    conflicts, as in every reachable state), the hint leaves the whole
    state unchanged. *)
Theorem hint_complete_noop (solve : SudokuState -> option SudokuState)
  (s : session) :
  moves s <> [] ->
  existsb (fun v => v =? 0) (sudoku s) = false ->
  get_all_conflicting_cells (sudoku s) = [] ->
  (conflicting s = [] \/ conflicting s = get_all_conflicting_cells (sudoku s)) ->
  hint_button solve s = Some s.
Proof.
  intros Hne Hz Hall Hc.
  assert (Hc0 : conflicting s = []) by (destruct Hc; congruence).
  unfold hint_button.
  destruct (last_opt (moves s)) as [c|] eqn:El; [|apply last_opt_None in El; contradiction].
  unfold hint_cleanup. rewrite Hc0.
  unfold hint_fill, hint_value, get_hint. rewrite Hall. simpl.
  rewrite (first_zero_from_none 0 _ Hz), Hz. reflexivity.
Qed.

Lemma hint_complete_noop_witness :
  existsb (fun v => v =? 0) (sudoku (app_init solution_grid)) = false /\
  get_all_conflicting_cells (sudoku (app_init solution_grid)) = [] /\
  hint_button solver_const (app_init solution_grid) = Some (app_init solution_grid).
Proof.
  assert (Hz : existsb (fun v => v =? 0) (sudoku (app_init solution_grid)) = false)
    by (vm_compute; reflexivity).
  assert (Hall : get_all_conflicting_cells (sudoku (app_init solution_grid)) = [])
    by (vm_compute; reflexivity).
  split; [exact Hz|]. split; [exact Hall|].
  apply (hint_complete_noop solver_const (app_init solution_grid));
    [discriminate | exact Hz | exact Hall | left; reflexivity].
Defined.

(** C9 as stated fails: filling the only empty cell of [puzzle_one_blank]
    with a wrong digit gives a complete grid; the hint clears the
    conflicting cells and fills one of them, so the grid changes. *)
Lemma hint_on_complete_conflicting_grid_changes :
  exists s, run solver_const wrong_last_digit (app_init puzzle_one_blank) = Some s /\
    reachable solver_const s /\
    existsb (fun v => v =? 0) (sudoku s) = false /\
    exists s', hint_button solver_const s = Some s' /\ sudoku s' <> sudoku s.
Proof.
  eexists. split; [vm_compute; reflexivity|]. split.
  - apply (run_reachable solver_const wrong_last_digit (app_init puzzle_one_blank)).
    + apply reach_init. reflexivity.
    + vm_compute. reflexivity.
  - split; [vm_compute; reflexivity|].
    eexists. split; [vm_compute; reflexivity|]. discriminate.
Qed.

(** ** Witnesses of the [utils.rs] claims *)

Lemma get_related_cells_twenty_witness :
  length (get_related_cells 40) = 20 /\ ~ In 40 (get_related_cells 40) /\
  In 32 (get_related_cells 40).
Proof.
  destruct (get_related_cells_twenty 40 ltac:(lia)) as (H1 & H2 & _ & H4).
  split; [exact H1|]. split; [exact H2|].
  apply H4. split; [lia|]. split; [lia|]. right. right. split; reflexivity.
Defined.

Lemma find_changed_cell_first_witness :
  find_changed_cell empty_grid (set_nth grid_five 1 5) = Some 0 /\
  (find_changed_cell empty_grid grid_five = None <-> empty_grid = grid_five).
Proof.
  split; [vm_compute; reflexivity|].
  exact (proj1 (find_changed_cell_first empty_grid grid_five eq_refl eq_refl)).
Defined.

Lemma conflicts_symmetric_witness :
  In 8 (get_conflicting_cells scenario_b 0) /\
  (In 8 (get_conflicting_cells scenario_b 0) <->
   In 0 (get_conflicting_cells scenario_b 8)).
Proof.
  split; [vm_compute; tauto|].
  assert (Hb : length scenario_b = 81) by reflexivity.
  exact (proj1 (conflicts_symmetric scenario_b 0 8 Hb ltac:(lia) ltac:(lia))).
Defined.

(** ** Further properties of [utils.rs] *)

Lemma same_tokens_In (l m : list string) (t : string) :
  same_tokens l m = true -> (In t l <-> In t m).
Proof.
  unfold same_tokens. intros H. apply andb_prop in H as [H1 H2].
  rewrite forallb_forall in H1, H2. split; intros Ht.
  - specialize (H1 t Ht). apply existsb_exists in H1 as [w [Hw E]].
    apply String.eqb_eq in E. subst. exact Hw.
  - specialize (H2 t Ht). apply existsb_exists in H2 as [w [Hw E]].
    apply String.eqb_eq in E. subst. exact Hw.
Qed.

Lemma In_if_single (b : bool) (x t : string) :
  In t (if b then [x] else []) <-> t = x /\ b = true.
Proof. destruct b; simpl; split; intuition congruence. Qed.

Lemma get_class_ok_all (id : nat) : id < 81 -> get_class_ok id = true.
Proof.
  apply (forallb_seq get_class_ok 81). vm_compute. reflexivity.
Qed.

(** X1: inside the board, the classes of a cell in row [id / 9] and column
    [id mod 9] are: [tsb] on the first row of a box, [bdb] off its last row,
    [bsb] on the last row of the board, [lsb] and [rdb] on the first column
    of a box, [ldb] on its last column, [rsb] on the last column of the
    board, and [input] exactly for a mutable cell; nothing else. *)
Theorem get_class_borders (id : nat) (mutable : bool) (t : string) :
  id < 81 ->
  In t (class_list (get_class id mutable)) <->
  (t = "tsb"%string /\ id / 9 mod 3 = 0) \/
  (t = "bdb"%string /\ id / 9 mod 3 <> 2) \/
  (t = "bsb"%string /\ id / 9 = 8) \/
  (t = "lsb"%string /\ id mod 9 mod 3 = 0) \/
  (t = "rdb"%string /\ id mod 9 mod 3 = 0) \/
  (t = "ldb"%string /\ id mod 9 mod 3 = 2) \/
  (t = "rsb"%string /\ id mod 9 = 8) \/
  (t = "input"%string /\ mutable = true).
Proof.
  intros Hid. pose proof (get_class_ok_all id Hid) as Hok.
  unfold get_class_ok in Hok. apply andb_prop in Hok as [H0 H1].
  assert (H : same_tokens (class_list (get_class id mutable))
                          (border_tokens id mutable) = true)
    by (destruct mutable; assumption).
  rewrite (same_tokens_In _ _ t H). unfold border_tokens.
  rewrite !in_app_iff, !In_if_single, !Nat.eqb_eq, negb_true_iff, Nat.eqb_neq.
  reflexivity.
Qed.

(** X2: outside the board ([id >= 81]) the base class is empty: the result
    is [""], or [" input"] for a mutable cell. *)
Theorem get_class_outside (id : nat) (mutable : bool) :
  81 <= id -> get_class id mutable = if mutable then " input"%string else ""%string.
Proof.
  intros H. replace id with (81 + (id - 81)) by lia. reflexivity.
Qed.

(** X3: for a board index [i], the related cells are exactly the other
    board indices in the same row, the same column or the same 3x3 box. *)
Theorem get_related_cells_peers (i j : nat) :
  i < 81 ->
  In j (get_related_cells i) <->
  j < 81 /\ j <> i /\
  (i / 9 = j / 9 \/ i mod 9 = j mod 9 \/
   (i / 9 / 3 = j / 9 / 3 /\ i mod 9 / 3 = j mod 9 / 3)).
Proof.
  intros Hi. rewrite (get_related_cells_spec i j Hi). apply peer_spec.
Qed.

(** X4: the conflicts of one cell are listed in strictly increasing order,
    without duplicates. *)
Theorem get_conflicting_cells_sorted (board : SudokuState) (index : nat) :
  Sorted lt (get_conflicting_cells board index) /\
  NoDup (get_conflicting_cells board index).
Proof.
  assert (H : StronglySorted lt (get_conflicting_cells board index)).
  { unfold get_conflicting_cells. destruct (cell board index =? 0); [constructor|].
    apply filter_StronglySorted, Sorted_lt_strong, get_related_cells_sorted. }
  split; [apply StronglySorted_Sorted, H | apply StronglySorted_lt_NoDup, H].
Qed.

Lemma get_conflicting_cells_swap (b : SudokuState) (i j : nat) :
  i < 81 -> j < 81 -> In j (get_conflicting_cells b i) ->
  In i (get_conflicting_cells b j).
Proof.
  intros Hi Hj H. apply get_conflicting_cells_In in H as (Hnz & Hrel & Heq).
  apply get_conflicting_cells_In. split; [congruence|]. split; [|congruence].
  rewrite (get_related_cells_spec j i Hj), (peer_sym j i Hj Hi).
  rewrite <- (get_related_cells_spec i j Hi). exact Hrel.
Qed.

Lemma get_conflicting_cells_bound (b : SudokuState) (i j : nat) :
  i < 81 -> In j (get_conflicting_cells b i) -> j < 81.
Proof.
  intros Hi H. apply get_conflicting_cells_In in H as (_ & Hrel & _).
  rewrite (get_related_cells_spec i j Hi), peer_spec in Hrel. tauto.
Qed.

(** X5: on an 81-cell grid, a cell is in the whole-grid conflict list
    exactly when it is a board index whose own conflict list is not
    empty. *)
Theorem get_all_conflicting_cells_own (b : SudokuState) (x : nat) :
  length b = 81 ->
  In x (get_all_conflicting_cells b) <->
  x < 81 /\ get_conflicting_cells b x <> [].
Proof.
  intros Hb. split.
  - intros Hx. destruct (get_all_conflicting_cells_nonzero b x Hb Hx) as [Hx81 _].
    apply get_all_conflicting_cells_In in Hx as [v [[Hv _] Hc]].
    rewrite Hb in Hv. split; [exact Hx81|].
    pose proof (get_conflicting_cells_swap b v x Hv Hx81 Hc) as Hc'.
    intros E. rewrite E in Hc'. destruct Hc'.
  - intros [Hx81 Hne]. destruct (get_conflicting_cells b x) as [|j t] eqn:E;
      [contradiction|].
    assert (Hj : In j (get_conflicting_cells b x)) by (rewrite E; left; reflexivity).
    pose proof (get_conflicting_cells_bound b x j Hx81 Hj) as Hj81.
    apply get_all_conflicting_cells_In. exists j. split.
    + split; [lia|]. apply get_conflicting_cells_In in Hj as (Hnz & _ & Heq).
      congruence.
    + apply get_conflicting_cells_swap; assumption.
Qed.

(** X6: an 81-cell grid has an empty conflict list exactly when no filled
    cell shares its value with one of its related cells. *)
Theorem get_all_conflicting_cells_nil (b : SudokuState) :
  length b = 81 ->
  get_all_conflicting_cells b = [] <->
  (forall i j, i < 81 -> In j (get_related_cells i) -> cell b i <> 0 ->
     cell b j <> cell b i).
Proof.
  intros Hb. split.
  - intros Hnil i j Hi Hrel Hnz Heq.
    assert (Hin : In j (get_all_conflicting_cells b)).
    { apply get_all_conflicting_cells_In. exists i. split; [lia|].
      apply get_conflicting_cells_In. tauto. }
    rewrite Hnil in Hin. destruct Hin.
  - intros H. destruct (get_all_conflicting_cells b) as [|x t] eqn:E; [reflexivity|].
    exfalso. assert (Hx : In x (get_all_conflicting_cells b)) by (rewrite E; left; reflexivity).
    apply get_all_conflicting_cells_In in Hx as [v [[Hv Hnz] Hc]].
    apply get_conflicting_cells_In in Hc as (_ & Hrel & Heq).
    rewrite Hb in Hv. exact (H v x Hv Hrel Hnz Heq).
Qed.

Lemma cell_nonzero_bound (b : SudokuState) (x : nat) :
  cell b x <> 0 -> x < length b.
Proof.
  intros H. destruct (Nat.lt_ge_cases x (length b)) as [Hl|Hl]; [exact Hl|].
  exfalso. apply H. unfold cell. apply nth_overflow, Hl.
Qed.

Lemma zero_cells_cell (b : SudokuState) (cells : list nat) (c : nat) :
  cell (zero_cells b cells) c =
  if mem c cells && (c <? length b) then 0 else cell b c.
Proof.
  unfold zero_cells. revert b. induction cells as [|x t IH]; intros b; simpl.
  - reflexivity.
  - rewrite IH, set_nth_length, set_nth_nth. unfold mem. simpl.
    destruct (Nat.eqb_spec c x) as [<-|_];
      destruct (existsb (Nat.eqb c) t), (c <? length b); try reflexivity;
      destruct (x <? length b); reflexivity.
Qed.

Lemma zero_cells_length (b : SudokuState) (cells : list nat) :
  length (zero_cells b cells) = length b.
Proof.
  unfold zero_cells. revert b. induction cells as [|x t IH]; intros b; simpl;
    [reflexivity|]. rewrite IH. apply set_nth_length.
Qed.

Lemma zero_cells_kept (b : SudokuState) (cells : list nat) (c : nat) :
  cell (zero_cells b cells) c <> 0 ->
  ~ In c cells /\ cell (zero_cells b cells) c = cell b c.
Proof.
  intros H. pose proof (cell_nonzero_bound _ _ H) as Hc.
  rewrite zero_cells_length in Hc. apply Nat.ltb_lt in Hc.
  rewrite zero_cells_cell, Hc in *. rewrite andb_true_r in *.
  destruct (mem c cells) eqn:E; [contradiction|].
  split; [|reflexivity]. rewrite <- mem_In, E. discriminate.
Qed.

(** X7: every conflict is reported: setting to 0 every cell listed by
    [get_all_conflicting_cells] leaves a grid without conflicts. *)
Theorem get_all_conflicting_cells_complete (b : SudokuState) :
  get_all_conflicting_cells (zero_cells b (get_all_conflicting_cells b)) = [].
Proof.
  set (b' := zero_cells b (get_all_conflicting_cells b)).
  destruct (get_all_conflicting_cells b') as [|x t] eqn:E; [reflexivity|].
  exfalso. assert (Hx : In x (get_all_conflicting_cells b')) by (rewrite E; left; reflexivity).
  apply get_all_conflicting_cells_In in Hx as [v [[Hv Hnz] Hc]].
  apply get_conflicting_cells_In in Hc as (_ & Hrel & Heq).
  assert (Hxnz : cell b' x <> 0) by congruence.
  destruct (zero_cells_kept _ _ _ Hnz) as [_ Ev].
  destruct (zero_cells_kept _ _ _ Hxnz) as [Hxout Ex].
  fold b' in Ev, Ex. apply Hxout. apply get_all_conflicting_cells_In. exists v.
  unfold b' in Hv. rewrite zero_cells_length in Hv.
  split; [split; [exact Hv | congruence]|].
  apply get_conflicting_cells_In.
  split; [congruence|]. split; [exact Hrel | congruence].
Qed.

(** X8: [find_changed_cell] does not depend on the order of its two
    arguments. *)
Theorem find_changed_cell_comm (previous current : SudokuState) :
  find_changed_cell previous current = find_changed_cell current previous.
Proof.
  unfold find_changed_cell. generalize 0.
  revert current. induction previous as [|x p IH]; intros [|y c] k; simpl;
    try reflexivity.
  rewrite (Nat.eqb_sym y x). destruct (x =? y); [apply IH | reflexivity].
Qed.

(** ** Further properties of the board components *)

Lemma nth_error_set_nth (b : SudokuState) (i v : nat) :
  i < length b -> nth_error (set_nth b i v) i = Some v.
Proof.
  revert i. induction b as [|x t IH]; intros [|i] H; simpl in *; try lia.
  - reflexivity.
  - apply IH. lia.
Qed.

(** X9: pressing the same number button a second time changes nothing. *)
Theorem number_button_idempotent (number : nat) (s s' : session) :
  number_button number s = Some s' -> number_button number s' = Some s'.
Proof.
  unfold number_button at 1.
  destruct (nth_error (sudoku s) (clicked s)) as [v|] eqn:Ev; [|discriminate].
  destruct (v =? number) eqn:Evn.
  - intros H; injection H as <-. unfold number_button. rewrite Ev, Evn. reflexivity.
  - destruct (mutable s) eqn:Em.
    + intros H; injection H as <-. unfold number_button; simpl.
      rewrite nth_error_set_nth, Nat.eqb_refl; [reflexivity|].
      apply nth_error_Some. rewrite Ev. discriminate.
    + intros H; injection H as <-. unfold number_button. rewrite Ev, Evn, Em.
      reflexivity.
Qed.

(** X10: in every reachable state, [SudokuPuzzle] is the last entry of the
    moves and every entry of the moves is an 81-cell grid. *)
Theorem reachable_moves_shape (solve : SudokuState -> option SudokuState)
  (s : session) :
  reachable solve s ->
  last_opt (moves s) = Some (sudoku s) /\
  Forall (fun g => length g = 81) (moves s).
Proof.
  intros Hr. destruct (reachable_session_inv solve s Hr) as (_ & Hlast & Hlen & _).
  split; assumption.
Qed.

Lemma number_button_cases (number : nat) (s s' : session) :
  number_button number s = Some s' ->
  s' = s \/
  (initial_sudoku s' = initial_sudoku s /\ clicked s' = clicked s /\
   related s' = related s /\
   conflicting s' = get_all_conflicting_cells (sudoku s')).
Proof.
  unfold number_button.
  destruct (nth_error (sudoku s) (clicked s)) as [v|]; [|discriminate].
  destruct (v =? number); [intros H; injection H as <-; left; reflexivity|].
  destruct (mutable s); [|intros H; injection H as <-; left; reflexivity].
  intros H; injection H as <-. right. simpl. tauto.
Qed.

Lemma find_changed_cell_bound (a b : SudokuState) (k : nat) :
  length a = length b -> find_changed_cell a b = Some k -> k < length a.
Proof.
  intros Hlen Hk. destruct (find_changed_from_spec 0 a b Hlen) as [_ Hsome].
  destruct (Hsome k Hk) as (_ & H & _). lia.
Qed.

Lemma undo_button_cases (s s' : session) :
  session_inv s -> undo_button s = Some s' ->
  s' = s \/
  (initial_sudoku s' = initial_sudoku s /\ clicked s' < 81 /\
   related s' = get_related_cells (clicked s') /\
   conflicting s' = get_all_conflicting_cells (sudoku s')).
Proof.
  intros Hinv. pose proof (session_inv_sudoku_length s Hinv) as Hs.
  destruct Hinv as (_ & Hlast & Hlen & _).
  unfold undo_button. rewrite Hlast.
  destruct (grid_eq_dec (sudoku s) (initial_sudoku s)) as [_|_].
  { intros H; injection H as <-. left. apply set_conflicting_same. }
  unfold vec_pop. rewrite Hlast.
  destruct (last_opt (removelast (moves s))) as [g|] eqn:Eg; [|discriminate].
  destruct (find_changed_cell (sudoku s) g) as [k|] eqn:Ek; [|discriminate].
  intros H; injection H as <-. right. simpl.
  apply last_opt_Some in Hlast. rewrite Hlast in Hlen.
  apply Forall_app in Hlen as [Hlen _]. rewrite Forall_forall in Hlen.
  pose proof (Hlen g (last_opt_In _ _ Eg)) as Hg.
  assert (Hk : k < length (sudoku s)) by
    (apply (find_changed_cell_bound _ g); [congruence | exact Ek]).
  split; [reflexivity|]. split; [lia|]. split; reflexivity.
Qed.

Lemma hint_cleanup_keeps (s : session) (c : SudokuState) :
  initial_sudoku (hint_cleanup s c) = initial_sudoku s /\
  clicked (hint_cleanup s c) = clicked s /\
  related (hint_cleanup s c) = related s.
Proof. unfold hint_cleanup. destruct (conflicting s); simpl; tauto. Qed.

Lemma hint_fill_cases (solve : SudokuState -> option SudokuState)
  (s1 s' : session) :
  length (sudoku s1) = 81 -> hint_fill solve s1 = Some s' ->
  s' = s1 \/
  (initial_sudoku s' = initial_sudoku s1 /\ clicked s' < 81 /\
   related s' = get_related_cells (clicked s') /\
   conflicting s' = get_all_conflicting_cells (sudoku s')).
Proof.
  intros Hs. unfold hint_fill.
  destruct (hint_value solve (sudoku s1)) as [g|] eqn:Eg; [|discriminate].
  destruct (existsb _ _); [|intros H; injection H as <-; left; reflexivity].
  destruct (find_changed_cell (sudoku s1) g) as [k|] eqn:Ek; [|discriminate].
  intros H; injection H as <-. right. simpl.
  pose proof (hint_value_length _ _ _ Eg) as Hg.
  assert (Hk : k < length (sudoku s1)) by
    (apply (find_changed_cell_bound _ g); [congruence | exact Ek]).
  split; [reflexivity|]. split; [lia|]. split; reflexivity.
Qed.

Lemma remove_conflicting_cells_zero_cells (b : SudokuState) (cells : list nat) :
  remove_conflicting_cells b cells = zero_cells b cells.
Proof.
  unfold zero_cells. revert b. induction cells as [|c t IH]; intros b; simpl;
    [reflexivity | apply IH].
Qed.

Lemma hint_cleanup_exact (s : session) :
  conflicting s = get_all_conflicting_cells (sudoku s) ->
  conflicting (hint_cleanup s (sudoku s)) =
  get_all_conflicting_cells (sudoku (hint_cleanup s (sudoku s))).
Proof.
  intros H. unfold hint_cleanup. destruct (conflicting s) eqn:E;
    [rewrite E; exact H|].
  simpl. rewrite remove_conflicting_cells_zero_cells.
  symmetry. apply get_all_conflicting_cells_complete.
Qed.

(** X11: if the puzzle of the current game has no conflicts, the
    [Conflicting] signal always holds exactly the conflicts of
    [SudokuPuzzle]. *)
Theorem reachable_conflicting_exact (solve : SudokuState -> option SudokuState)
  (s : session) :
  reachable solve s ->
  get_all_conflicting_cells (initial_sudoku s) = [] ->
  conflicting s = get_all_conflicting_cells (sudoku s).
Proof.
  induction 1 as [p Hp | s s' Hr IH Hstep]; intros Hinit.
  - simpl in *. symmetry. exact Hinit.
  - pose proof (reachable_session_inv solve s Hr) as Hinv.
    destruct Hstep as [s i _ | s n s' _ H | s s' H | s s' H | s p Hp].
    + apply IH, Hinit.
    + destruct (number_button_cases n s s' H) as [->|(Ei & _ & _ & Hc)];
        [apply IH, Hinit | exact Hc].
    + destruct (undo_button_cases s s' Hinv H) as [->|(Ei & _ & _ & Hc)];
        [apply IH, Hinit | exact Hc].
    + pose proof Hinv as (_ & Hlast & _).
      unfold hint_button in H. rewrite Hlast in H.
      pose proof (session_inv_sudoku_length _ (session_inv_cleanup s Hinv)) as Hs1.
      destruct (hint_cleanup_keeps s (sudoku s)) as (Ei1 & _ & _).
      destruct (hint_fill_cases solve _ s' Hs1 H) as [->|(Ei & _ & _ & Hc)];
        [|exact Hc].
      apply hint_cleanup_exact, IH. rewrite <- Ei1. exact Hinit.
    + simpl in *. symmetry. exact Hinit.
Qed.

(** X12: in every reachable state, [Clicked] holds a board index and
    [Related] its related cells, or [Clicked] holds the sentinel 90 and
    [Related] is empty. *)
Theorem reachable_selection (solve : SudokuState -> option SudokuState)
  (s : session) :
  reachable solve s -> selection_ok s.
Proof.
  induction 1 as [p Hp | s s' Hr IH Hstep].
  - right. split; reflexivity.
  - pose proof (reachable_session_inv solve s Hr) as Hinv.
    destruct Hstep as [s i Hi | s n s' _ H | s s' H | s s' H | s p Hp].
    + left. split; [exact Hi | reflexivity].
    + destruct (number_button_cases n s s' H) as [->|(_ & Ec & Erel & _)];
        [exact IH|]. unfold selection_ok. rewrite Ec, Erel. exact IH.
    + destruct (undo_button_cases s s' Hinv H) as [->|(_ & Hc & Erel & _)];
        [exact IH|]. left. split; assumption.
    + pose proof Hinv as (_ & Hlast & _).
      unfold hint_button in H. rewrite Hlast in H.
      pose proof (session_inv_sudoku_length _ (session_inv_cleanup s Hinv)) as Hs1.
      destruct (hint_cleanup_keeps s (sudoku s)) as (_ & Ec & Erel).
      destruct (hint_fill_cases solve _ s' Hs1 H) as [->|(_ & Hc & Erel' & _)].
      * unfold selection_ok. rewrite Ec, Erel. exact IH.
      * left. split; assumption.
    + right. split; reflexivity.
Qed.

(** X13: in a reachable state, [NumberButton] panics exactly when no cell
    is selected. *)
Theorem number_button_panics_iff (solve : SudokuState -> option SudokuState)
  (number : nat) (s : session) :
  reachable solve s ->
  (number_button number s = None <-> clicked s = no_selection).
Proof.
  intros Hr. pose proof (reachable_session_inv solve s Hr) as Hinv.
  pose proof (session_inv_sudoku_length s Hinv) as Hs.
  destruct (reachable_selection solve s Hr) as [[Hc _]|[Hc _]].
  - assert (Hsome : nth_error (sudoku s) (clicked s) <> None) by
      (apply nth_error_Some; lia).
    split; [|unfold no_selection; lia].
    unfold number_button. destruct (nth_error (sudoku s) (clicked s)) as [v|];
      [|contradiction].
    destruct (v =? number); [discriminate|]. destruct (mutable s); discriminate.
  - split; [intros _; exact Hc|]. intros _. unfold number_button.
    replace (nth_error (sudoku s) (clicked s)) with (@None nat); [reflexivity|].
    symmetry. apply nth_error_None. rewrite Hs, Hc. unfold no_selection. lia.
Qed.

(** X14: in a reachable state, [UndoButton] never panics. *)
Theorem undo_button_total (solve : SudokuState -> option SudokuState)
  (s : session) :
  reachable solve s -> undo_button s <> None.
Proof.
  intros Hr. pose proof (reachable_session_inv solve s Hr) as Hinv.
  pose proof (session_inv_sudoku_length s Hinv) as Hs.
  destruct Hinv as (Hhd & Hlast & Hlen & _ & Hadj).
  unfold undo_button. rewrite Hlast.
  destruct (grid_eq_dec (sudoku s) (initial_sudoku s)) as [_|Hne]; [discriminate|].
  unfold vec_pop. rewrite Hlast.
  pose proof (last_opt_Some _ _ Hlast) as Hm.
  set (r := removelast (moves s)) in *.
  destruct (last_opt r) as [g|] eqn:Eg.
  2:{ exfalso. apply last_opt_None in Eg. rewrite Eg in Hm. rewrite Hm in Hhd.
      injection Hhd as E. contradiction. }
  rewrite Hm in Hlen, Hadj. apply Forall_app in Hlen as [Hlen _].
  rewrite Forall_forall in Hlen. pose proof (Hlen g (last_opt_In _ _ Eg)) as Hg.
  apply adjacent_pairs_app in Hadj as [_ Hadj].
  destruct (Hadj g Eg) as [k [Hk Hd]].
  assert (Hlen' : length (sudoku s) = length g) by congruence.
  unfold find_changed_cell. destruct (find_changed_from 0 (sudoku s) g) eqn:Ef;
    [discriminate|].
  apply (find_changed_from_spec 0 (sudoku s) g Hlen') in Ef. rewrite Ef in Hd. contradiction.
Qed.

Lemma map_snd_combine_seq (k : nat) (l : list nat) :
  map snd (combine (seq k (length l)) l) = l.
Proof.
  revert k. induction l as [|x t IH]; intros k; simpl; [reflexivity|].
  rewrite IH. reflexivity.
Qed.

Lemma map_fst_combine_seq (k : nat) (l : list nat) :
  map fst (combine (seq k (length l)) l) = seq k (length l).
Proof.
  revert k. induction l as [|x t IH]; intros k; simpl; [reflexivity|].
  rewrite IH. reflexivity.
Qed.

Lemma render_cells_last (s : session) (g : SudokuState) :
  last_opt (moves s) = Some g ->
  exists cs, render_cells s = Some cs /\
    map cp_value cs = g /\ map cp_index cs = seq 0 (length g) /\
    map cp_selected cs = map (fun i => clicked s =? i) (seq 0 (length g)).
Proof.
  intros Hg. unfold render_cells. rewrite Hg. eexists. split; [reflexivity|].
  rewrite !map_map.
  split; [|split].
  - transitivity (map snd (combine (seq 0 (length g)) g));
      [apply map_ext; intros [i v]; reflexivity | apply map_snd_combine_seq].
  - transitivity (map fst (combine (seq 0 (length g)) g));
      [apply map_ext; intros [i v]; reflexivity | apply map_fst_combine_seq].
  - transitivity (map (fun i => clicked s =? i) (map fst (combine (seq 0 (length g)) g)));
      [rewrite map_map; apply map_ext; intros [i v]; reflexivity
      | rewrite map_fst_combine_seq; reflexivity].
Qed.

(** X15: in every reachable state, [SudokuBoard] renders 81 cells, the
    cell at position [k] with index [k] and the value of cell [k] of
    [SudokuPuzzle]. *)
Theorem render_cells_grid (solve : SudokuState -> option SudokuState)
  (s : session) :
  reachable solve s ->
  exists cs, render_cells s = Some cs /\
    map cp_value cs = sudoku s /\ map cp_index cs = seq 0 81.
Proof.
  intros Hr. pose proof (reachable_session_inv solve s Hr) as Hinv.
  pose proof (session_inv_sudoku_length s Hinv) as Hs.
  destruct Hinv as (_ & Hlast & _).
  destruct (render_cells_last s _ Hlast) as (cs & Hcs & Hv & Hi & _).
  exists cs. rewrite Hs in Hi. tauto.
Qed.

Lemma count_eqb_seq (c k n : nat) :
  length (filter (fun x => x) (map (fun i => c =? i) (seq k n))) =
  if (k <=? c) && (c <? k + n) then 1 else 0.
Proof.
  revert k. induction n as [|n IH]; intros k; simpl.
  - destruct (Nat.leb_spec k c), (Nat.ltb_spec c (k + 0)); simpl; lia.
  - destruct (Nat.eqb_spec c k) as [->|Hne]; simpl; rewrite IH.
    + rewrite Nat.leb_refl. destruct (Nat.leb_spec (S k) k); [lia|].
      destruct (Nat.ltb_spec k (k + S n)); simpl; lia.
    + destruct (Nat.leb_spec (S k) c), (Nat.ltb_spec c (S k + n)),
               (Nat.leb_spec k c), (Nat.ltb_spec c (k + S n)); simpl; lia.
Qed.

(** X16: in every reachable state, [SudokuBoard] marks one cell as
    selected when [Clicked] holds a board index, and none otherwise. *)
Theorem render_cells_selected (solve : SudokuState -> option SudokuState)
  (s : session) :
  reachable solve s ->
  exists cs, render_cells s = Some cs /\
    length (filter cp_selected cs) = if clicked s <? 81 then 1 else 0.
Proof.
  intros Hr. pose proof (reachable_session_inv solve s Hr) as Hinv.
  pose proof (session_inv_sudoku_length s Hinv) as Hs.
  destruct Hinv as (_ & Hlast & _).
  destruct (render_cells_last s _ Hlast) as (cs & Hcs & _ & _ & Hsel).
  exists cs. split; [exact Hcs|].
  replace (length (filter cp_selected cs)) with
    (length (filter (fun x => x) (map cp_selected cs))).
  - rewrite Hsel, Hs, count_eqb_seq. reflexivity.
  - clear. induction cs as [|c t IH]; simpl; [reflexivity|].
    destruct (cp_selected c); simpl; rewrite IH; reflexivity.
Qed.

(** ** Witnesses of the further properties *)

Lemma get_class_borders_witness :
  1 < 81 /\ In "bdb"%string (class_list (get_class 1 true)).
Proof.
  split; [lia|].
  apply (proj2 (get_class_borders 1 true "bdb" ltac:(lia))).
  right. left. split; [reflexivity | intros H; vm_compute in H; discriminate H].
Defined.

Lemma get_class_outside_witness :
  81 <= 200 /\ get_class 200 true = " input"%string.
Proof. split; [lia | exact (get_class_outside 200 true ltac:(lia))]. Defined.

Lemma get_related_cells_peers_witness :
  40 < 81 /\ In 30 (get_related_cells 40).
Proof.
  split; [lia|]. apply (proj2 (get_related_cells_peers 40 30 ltac:(lia))).
  split; [lia|]. split; [lia|]. right. right. split; reflexivity.
Defined.

Lemma get_all_conflicting_cells_own_witness :
  length scenario_b = 81 /\ In 0 (get_all_conflicting_cells scenario_b).
Proof.
  assert (Hb : length scenario_b = 81) by reflexivity.
  split; [exact Hb|]. apply (proj2 (get_all_conflicting_cells_own scenario_b 0 Hb)).
  split; [lia | vm_compute; discriminate].
Defined.

Lemma get_all_conflicting_cells_nil_witness :
  length empty_grid = 81 /\
  (forall i j, i < 81 -> In j (get_related_cells i) -> cell empty_grid i <> 0 ->
     cell empty_grid j <> cell empty_grid i).
Proof.
  assert (Hb : length empty_grid = 81) by reflexivity.
  split; [exact Hb|]. apply (proj1 (get_all_conflicting_cells_nil empty_grid Hb)).
  vm_compute. reflexivity.
Defined.

Lemma number_button_idempotent_witness :
  exists s', number_button 5 (select_cell 0 (app_init empty_grid)) = Some s' /\
    number_button 5 s' = Some s'.
Proof.
  eexists. split; [vm_compute; reflexivity|].
  apply (number_button_idempotent 5 (select_cell 0 (app_init empty_grid))).
  vm_compute. reflexivity.
Defined.

Lemma reachable_select_zero :
  reachable solver_const (select_cell 0 (app_init empty_grid)).
Proof.
  apply (reach_step solver_const (app_init empty_grid)).
  - apply reach_init. reflexivity.
  - apply step_select. lia.
Qed.

Lemma reachable_moves_shape_witness :
  reachable solver_const (select_cell 0 (app_init empty_grid)) /\
  last_opt (moves (select_cell 0 (app_init empty_grid))) =
    Some (sudoku (select_cell 0 (app_init empty_grid))) /\
  Forall (fun g => length g = 81) (moves (select_cell 0 (app_init empty_grid))).
Proof.
  split; [exact reachable_select_zero|].
  exact (reachable_moves_shape solver_const _ reachable_select_zero).
Defined.

Lemma reachable_conflicting_exact_witness :
  reachable solver_const (select_cell 0 (app_init empty_grid)) /\
  get_all_conflicting_cells (initial_sudoku (select_cell 0 (app_init empty_grid))) = [] /\
  conflicting (select_cell 0 (app_init empty_grid)) =
    get_all_conflicting_cells (sudoku (select_cell 0 (app_init empty_grid))).
Proof.
  assert (Hi : get_all_conflicting_cells
                 (initial_sudoku (select_cell 0 (app_init empty_grid))) = [])
    by (vm_compute; reflexivity).
  split; [exact reachable_select_zero|]. split; [exact Hi|].
  exact (reachable_conflicting_exact solver_const _ reachable_select_zero Hi).
Defined.

Lemma reachable_selection_witness :
  reachable solver_const (select_cell 0 (app_init empty_grid)) /\
  selection_ok (select_cell 0 (app_init empty_grid)).
Proof.
  split; [exact reachable_select_zero|].
  exact (reachable_selection solver_const _ reachable_select_zero).
Defined.

Lemma number_button_panics_iff_witness :
  reachable solver_const (app_init empty_grid) /\
  (number_button 5 (app_init empty_grid) = None <->
   clicked (app_init empty_grid) = no_selection).
Proof.
  assert (Hr : reachable solver_const (app_init empty_grid))
    by (apply reach_init; reflexivity).
  split; [exact Hr | exact (number_button_panics_iff solver_const 5 _ Hr)].
Defined.

Lemma undo_button_total_witness :
  reachable solver_const (select_cell 0 (app_init empty_grid)) /\
  undo_button (select_cell 0 (app_init empty_grid)) <> None.
Proof.
  split; [exact reachable_select_zero|].
  exact (undo_button_total solver_const _ reachable_select_zero).
Defined.

Lemma render_cells_grid_witness :
  reachable solver_const (select_cell 0 (app_init empty_grid)) /\
  exists cs, render_cells (select_cell 0 (app_init empty_grid)) = Some cs /\
    map cp_value cs = sudoku (select_cell 0 (app_init empty_grid)) /\
    map cp_index cs = seq 0 81.
Proof.
  split; [exact reachable_select_zero|].
  exact (render_cells_grid solver_const _ reachable_select_zero).
Defined.

Lemma render_cells_selected_witness :
  reachable solver_const (select_cell 0 (app_init empty_grid)) /\
  exists cs, render_cells (select_cell 0 (app_init empty_grid)) = Some cs /\
    length (filter cp_selected cs) =
      if clicked (select_cell 0 (app_init empty_grid)) <? 81 then 1 else 0.
Proof.
  split; [exact reachable_select_zero|].
  exact (render_cells_selected solver_const _ reachable_select_zero).
Defined.
